(** * A shallow embedding of sparselizard's [indexmat] and [opparameter]

    [src/src/indexmat.h] declares a dense, row-major matrix of [int] whose
    values live in a reference-counted buffer ([std::shared_ptr<int>]) that
    several [indexmat] objects may share.  The buffers are modelled as a
    heap: a finite map from buffer addresses to the list of the ints stored
    there.  An [indexmat] holds its two dimensions and the (optional)
    address of its buffer, as the C++ object does.

    Only the header is part of the sources; the bodies of the member
    functions (indexmat.cpp) are not.  Definitions whose body is missing
    are modelled from the header comments and from the spec, and say so. *)

From Stdlib Require Import ZArith Lia.
From stdpp Require Import base gmap list.

Module IndexMat.

Open Scope Z_scope.

(** Buffers: address -> values.  [std::shared_ptr<int> myvalues] becomes an
    optional address into this heap ([None] is the [NULL] pointer). *)
Abbreviation heap := (gmap positive (list Z)).

(** [class indexmat { long long int numrows = 0; long long int numcols = 0;
    std::shared_ptr<int> myvalues = NULL; ... }] *)
Record indexmat := mkindexmat {
  numrows : Z;
  numcols : Z;
  myvalues : option positive
}.

(** [indexmat(void) {};] keeps every default member initialiser. *)
Definition indexmat_default : indexmat := mkindexmat 0 0 None.

(** [countrows], [countcolumns] and [count] as written in the header.
    [numrows*numcols] is a [long long] product; signed overflow is undefined
    behaviour in C++, so the product is taken in [Z], which is what the code
    computes whenever it is defined. *)
Definition countrows (A : indexmat) : Z := numrows A.
Definition countcolumns (A : indexmat) : Z := numcols A.
Definition count (A : indexmat) : Z := numrows A * numcols A.

(** The whole buffer [myvalues] points to ([NULL] holds nothing). *)
Definition buffer (h : heap) (A : indexmat) : list Z :=
  match myvalues A with
  | Some p => default [] (h !! p)
  | None => []
  end.

(** The row-major entries of [A]: the first [count()] ints of its buffer,
    i.e. [getvalues()[0 .. count()-1]]. *)
Definition flatvalues (h : heap) (A : indexmat) : list Z :=
  take (Z.to_nat (count A)) (buffer h A).

(** Row [i] of [A] ([numcols] consecutive entries from [i*numcols]). *)
Definition getrow (h : heap) (A : indexmat) (i : nat) : list Z :=
  let q := Z.to_nat (numcols A) in take q (drop (i * q) (flatvalues h A)).

(** The pointer [myvalues] is [NULL] or points to an allocated buffer. *)
Definition valid (h : heap) (A : indexmat) : Prop :=
  match myvalues A with Some p => is_Some (h !! p) | None => True end.

(** A matrix whose buffer is present and long enough for its dimensions. *)
Definition wf (h : heap) (A : indexmat) : Prop :=
  0 <= numrows A /\ 0 <= numcols A /\ valid h A /\
  (Z.to_nat (count A) <= length (buffer h A))%nat.

(** Modelled from the spec: the constructor
    [indexmat(numberofrows, numberofcolumns, std::vector<int> valvec)]
    of indexmat.cpp (absent).  It allocates a new buffer holding [valvec]
    in row-major order; the new address is one the heap does not use. *)
Definition alloc (h : heap) (r c : Z) (vals : list Z) : heap * indexmat :=
  let p := fresh (dom h) in (<[p := vals]> h, mkindexmat r c (Some p)).

(** Writing [getvalues()[i] = v] through the raw pointer of [A]. *)
Definition setvalue (h : heap) (A : indexmat) (i : nat) (v : Z) : heap :=
  match myvalues A with
  | Some p => alter (fun l => <[i := v]> l) p h
  | None => h
  end.

(** A sequence of such writes through the pointer of [A]. *)
Definition writes (h : heap) (A : indexmat) (ws : list (nat * Z)) : heap :=
  foldl (fun h' iv => setvalue h' A iv.1 iv.2) h ws.

(** Modelled from the spec: [getresized] (body absent), with the header
    comment "Output the mxn resized
    matrix (this only changes 'numrows' and 'numcols'). Values are NOT
    copied!": it keeps the same shared buffer. *)
Definition getresized (A : indexmat) (m n : Z) : indexmat :=
  mkindexmat m n (myvalues A).

(** Modelled from the spec: [countpositive] (body absent), after its header
    comment "Count the number of positive or zero integer values"; one
    pass over the [count()] entries. *)
Definition countpositive (h : heap) (A : indexmat) : Z :=
  Z.of_nat (length (filter (fun v => 0 <= v) (flatvalues h A))).

(** Modelled from the spec: [countoccurences] (body absent), after its
    header comment "Count the number of occurences of a value". *)
Definition countoccurences (h : heap) (A : indexmat) (value : Z) : Z :=
  Z.of_nat (length (filter (fun v => v = value) (flatvalues h A))).

(** Modelled from the spec: [countalloccurences] (body absent), after its
    header comment "Return a vector whose ith entry gives the number of
    times value i appears": a zero vector of [maxintval+1] counters, incremented at
    [output[v]] for every entry [v].  An entry outside [0, maxintval] would
    index out of bounds (undefined in C++); the model writes nothing then. *)
Definition tally (output : list Z) (v : Z) : list Z :=
  if decide (0 <= v) then alter (Z.add 1) (Z.to_nat v) output else output.

Definition countalloccurences (h : heap) (A : indexmat) (maxintval : Z)
  : list Z :=
  foldl tally (replicate (Z.to_nat (maxintval + 1)) 0) (flatvalues h A).

(** The empty-container failure raised by [errorifempty]. *)
Inductive failure := EmptyMatrix.

(** Modelled from the spec: [errorifempty] (body absent), "fail with an
    empty-matrix condition if the matrix has zero entries", after its header
    comment "Throws an error if matrix is empty". *)
Definition errorifempty (A : indexmat) : option failure :=
  if decide (count A = 0) then Some EmptyMatrix else None.

(** Modelled from the spec: the bodies are absent; [sum], [max] and [minmax] call
    [errorifempty] first and then reduce over all entries.  [max] and
    [minmax] start from [values[0]] and scan the rest. *)
Definition sum (h : heap) (A : indexmat) : failure + Z :=
  match errorifempty A with
  | Some e => inl e
  | None => inr (foldr Z.add 0 (flatvalues h A))
  end.

Definition max (h : heap) (A : indexmat) : failure + Z :=
  match errorifempty A with
  | Some e => inl e
  | None =>
      let vals := flatvalues h A in
      inr (foldl Z.max (default 0 (head vals)) (drop 1 vals))
  end.

Definition minmax (h : heap) (A : indexmat) : failure + list Z :=
  match errorifempty A with
  | Some e => inl e
  | None =>
      let vals := flatvalues h A in
      let v0 := default 0 (head vals) in
      inr [foldl Z.min v0 (drop 1 vals); foldl Z.max v0 (drop 1 vals)]
  end.

(** Modelled from the spec: [copy] (body absent), after its header comment
    "Get a full copy (all values are copied)": a new [numrows x numcols] buffer
    receiving the [count()] entries. *)
Definition copy (h : heap) (A : indexmat) : heap * indexmat :=
  alloc h (numrows A) (numcols A) (flatvalues h A).

(** Modelled from the spec: [duplicateallrowstogether] (body absent),
    after its header comment: a [(p*n) x q] matrix [row1; row2; ...; row1; row2; ...], that
    is, the [p*q] entries written [n] times one after the other. *)
Definition duplicateallrowstogether (h : heap) (A : indexmat) (n : Z)
  : heap * indexmat :=
  alloc h (numrows A * n) (numcols A)
        (concat (replicate (Z.to_nat n) (flatvalues h A))).

(** Modelled from the spec: [duplicaterowsonebyone] (body absent), after
    its header comment: a [(p*n) x q] matrix [row1; row1; ...; row2; row2; ...], each
    row written [n] times before the next one. *)
Definition duplicaterowsonebyone (h : heap) (A : indexmat) (n : Z)
  : heap * indexmat :=
  alloc h (numrows A * n) (numcols A)
        (concat (concat ((fun i => replicate (Z.to_nat n) (getrow h A i))
                         <$> seq 0 (Z.to_nat (numrows A))))).

(** Entry [(i, j)] of [A]: [getvalues()[i*numcols + j]]. *)
Definition getentry (h : heap) (A : indexmat) (i j : nat) : option Z :=
  flatvalues h A !! (i * Z.to_nat (numcols A) + j)%nat.

(** Modelled from the spec: [removevalue] (body absent), after its header
    comment "Filter out the argument value and return a column vector": the
    entries different from [toremove], in their order, as a new
    [k x 1] matrix. *)
Definition removevalue (h : heap) (A : indexmat) (toremove : Z)
  : heap * indexmat :=
  let kept := filter (fun v => v <> toremove) (flatvalues h A) in
  alloc h (Z.of_nat (length kept)) 1 kept.

(** One step of [findalloccurences]: index [i] holding value [v] is
    appended to [output[v]] (an out-of-range [v] writes nothing, as in
    [tally]). *)
Definition record_index (output : list (list Z)) (iv : nat * Z)
  : list (list Z) :=
  if decide (0 <= iv.2)
  then alter (fun l => l ++ [Z.of_nat iv.1]) (Z.to_nat iv.2) output
  else output.

(** Modelled from the spec: [findalloccurences] (body absent), after its
    header comment "And all indexes at which it appears": [maxintval+1]
    index lists, filled by one pass over the entries in index order. *)
Definition findalloccurences (h : heap) (A : indexmat) (maxintval : Z)
  : list (list Z) :=
  let vals := flatvalues h A in
  foldl record_index (replicate (Z.to_nat (maxintval + 1)) [])
        (zip (seq 0 (length vals)) vals).

(** Modelled from the spec: [gettranspose] (body absent), after its header
    comment "Get the transpose without modifying this object": a new
    [numcols x numrows] matrix whose entry [(j, i)] is entry [(i, j)]. *)
Definition gettranspose (h : heap) (A : indexmat) : heap * indexmat :=
  alloc h (numcols A) (numrows A)
        (concat ((fun j => (fun i => default 0 (getentry h A i j))
                              <$> seq 0 (Z.to_nat (numrows A)))
                   <$> seq 0 (Z.to_nat (numcols A)))).

(** Modelled from the spec: [duplicateallcolstogether] (body absent),
    "Same for columns" as [duplicateallrowstogether]: a [p x (q*n)] matrix
    whose row [i] is row [i] of [A] written [n] times. *)
Definition duplicateallcolstogether (h : heap) (A : indexmat) (n : Z)
  : heap * indexmat :=
  alloc h (numrows A) (numcols A * n)
        (concat ((fun i => concat (replicate (Z.to_nat n) (getrow h A i)))
                   <$> seq 0 (Z.to_nat (numrows A)))).

(** Modelled from the spec: [duplicatecolsonebyone] (body absent), "Same
    for columns" as [duplicaterowsonebyone]: a [p x (q*n)] matrix whose row
    [i] has every entry of row [i] of [A] written [n] times in a row. *)
Definition duplicatecolsonebyone (h : heap) (A : indexmat) (n : Z)
  : heap * indexmat :=
  alloc h (numrows A) (numcols A * n)
        (concat ((fun i => concat (replicate (Z.to_nat n) <$> getrow h A i))
                   <$> seq 0 (Z.to_nat (numrows A)))).

(** Modelled from the spec: [extractrows(std::vector<int>& selected)] (body
    absent), after its header comment "Extract a set of rows/columns from the
    matrix": the selected rows, in the order given. *)
Definition extractrows (h : heap) (A : indexmat) (selected : list Z)
  : heap * indexmat :=
  alloc h (Z.of_nat (length selected)) (numcols A)
        (concat ((fun r => getrow h A (Z.to_nat r)) <$> selected)).

(** Modelled from the spec: [extractcols(std::vector<int>& selected)] (body
    absent): in every row, the entries of the selected columns, in the order
    given. *)
Definition extractcols (h : heap) (A : indexmat) (selected : list Z)
  : heap * indexmat :=
  alloc h (numrows A) (Z.of_nat (length selected))
        (concat ((fun i => (fun c => default 0 (getentry h A i (Z.to_nat c)))
                              <$> selected)
                   <$> seq 0 (Z.to_nat (numrows A)))).

End IndexMat.

Module OpParameter.

Open Scope Z_scope.

(** [class opparameter: public operation { bool reuse = false; int myrow;
    int mycolumn; std::shared_ptr<rawparameter> myparameter; ... }].
    [rawparameter] (rawparameter.h is not among the sources) is only held
    through a shared pointer; the model keeps its address. *)
Record opparameter := mkopparameter {
  reuse : bool;
  myrow : Z;
  mycolumn : Z;
  myparameter : positive
}.

(** [opparameter(std::shared_ptr<rawparameter> input, int row, int col)
    { myparameter = input; myrow = row; mycolumn = col; };]
    The flag keeps its default member initialiser [reuse = false]. *)
Definition make (input : positive) (row col : Z) : opparameter :=
  mkopparameter false row col input.

(** [getparameterpointer(void) { return myparameter; };] *)
Definition getparameterpointer (o : opparameter) : positive := myparameter o.

(** Operation nodes are objects behind [std::shared_ptr<operation>]: a store
    from node addresses to nodes. *)
Abbreviation nodes := (gmap positive opparameter).

(** [reuseit(bool istobereused) { reuse = istobereused; };] on the node
    stored at [a]. *)
Definition reuseit (s : nodes) (a : positive) (istobereused : bool) : nodes :=
  alter (fun o => mkopparameter istobereused (myrow o) (mycolumn o)
                                (myparameter o)) a s.

(** A caller issuing [reuseit] on a sequence of nodes: [(a, b)] stands for
    the call [reuseit(b)] on the node stored at [a]. *)
Definition reuseit_seq (s : nodes) (calls : list (positive * bool)) : nodes :=
  foldl (fun s' ab => reuseit s' ab.1 ab.2) s calls.

(** The flag last requested for node [a] in [calls], or [dflt] when no call
    names [a]. *)
Definition lastreuse (calls : list (positive * bool)) (a : positive)
    (dflt : bool) : bool :=
  match last (filter (fun ab => ab.1 = a) calls) with
  | Some ab => ab.2
  | None => dflt
  end.

End OpParameter.

(** Concrete inputs: a [2 x 3] matrix [[1 2 3]; [4 5 6]] in buffer 1, a
    [1 x 3] matrix [[0 -1 2]] in buffer 2, and an [opparameter] node with
    [reuse] set, at row 1, column 2, of the rawparameter at address 7. *)
Module Samples.

Import IndexMat.
Open Scope Z_scope.

Definition h0 : heap :=
  <[2%positive := [0; -1; 2]]> (<[1%positive := [1; 2; 3; 4; 5; 6]]> ∅).
Definition A0 : indexmat := mkindexmat 2 3 (Some 1%positive).
Definition A1 : indexmat := mkindexmat 1 3 (Some 2%positive).

Definition s0 : OpParameter.nodes :=
  <[1%positive := OpParameter.mkopparameter true 1 2 7%positive]> ∅.

End Samples.

Module IndexMatFacts.

Import IndexMat.
Open Scope Z_scope.

(** ** Heap lemmas *)

Lemma fresh_ne (h : heap) (p : positive) :
  is_Some (h !! p) -> p <> fresh (dom h).
Proof.
  intros Hp ->. apply (is_fresh (dom h)). by apply elem_of_dom.
Qed.

Lemma buffer_alloc_new (h : heap) r c vals :
  buffer (alloc h r c vals).1 (alloc h r c vals).2 = vals.
Proof. unfold alloc, buffer; simpl. by rewrite lookup_insert_eq. Qed.

Lemma buffer_alloc_old (h : heap) r c vals A :
  valid h A -> buffer (alloc h r c vals).1 A = buffer h A.
Proof.
  unfold valid, alloc, buffer; simpl. destruct (myvalues A) as [p|]; [|done].
  intros Hp. rewrite lookup_insert_ne; [done|]. intros E. by apply (fresh_ne h p).
Qed.

Lemma buffer_setvalue_other (h : heap) A B i v :
  (forall q, myvalues B = Some q -> myvalues A <> Some q) ->
  buffer (setvalue h B i v) A = buffer h A.
Proof.
  unfold setvalue, buffer. intros Hne. destruct (myvalues B) as [q|] eqn:EB; [|done].
  destruct (myvalues A) as [p|] eqn:EA; [|done].
  rewrite lookup_alter_ne; [done|]. intros E. apply (Hne q); congruence.
Qed.

Lemma flatvalues_setvalue_other (h : heap) A B i v :
  (forall q, myvalues B = Some q -> myvalues A <> Some q) ->
  flatvalues (setvalue h B i v) A = flatvalues h A.
Proof. intros Hne. unfold flatvalues. by rewrite buffer_setvalue_other. Qed.

Lemma length_flatvalues (h : heap) A :
  wf h A -> length (flatvalues h A) = Z.to_nat (count A).
Proof.
  intros (_ & _ & _ & Hlen). unfold flatvalues. rewrite length_take. lia.
Qed.

Lemma flatvalues_writes_other (h : heap) A B ws :
  (forall q, myvalues B = Some q -> myvalues A <> Some q) ->
  flatvalues (writes h B ws) A = flatvalues h A.
Proof.
  intros Hne. unfold writes. revert h.
  induction ws as [|[i v] ws IH]; intros h; simpl; [done|].
  rewrite IH. by apply flatvalues_setvalue_other.
Qed.

Lemma filter_nonneg_split (l : list Z) :
  length (filter (fun v => 0 <= v) l) =
  Nat.add (length (filter (fun v => 0 < v) l)) (length (filter (fun v => v = 0) l)).
Proof.
  induction l as [|x l IH]; simpl; [done|].
  rewrite !filter_cons. repeat case_decide; simpl; lia.
Qed.

(** ** Reductions *)

Lemma foldl_max_spec (x : Z) (xs : list Z) :
  In (foldl Z.max x xs) (x :: xs) /\
  Forall (fun v => v <= foldl Z.max x xs) (x :: xs).
Proof.
  revert x. induction xs as [|y ys IH]; intros x; simpl.
  - split; [by left|]. constructor; [lia|constructor].
  - destruct (IH (Z.max x y)) as [Hin Hall]. inversion Hall as [|? ? Hxy Hys]; subst.
    set (m := foldl Z.max (Z.max x y) ys) in *.
    split.
    + destruct Hin as [Hm|Hm]; [|by right; right].
      destruct (Z.max_spec x y) as [[_ E]|[_ E]]; rewrite E in Hm; rewrite <- Hm; simpl; auto.
    + constructor; [lia|]. constructor; [lia|done].
Qed.

Lemma foldl_min_spec (x : Z) (xs : list Z) :
  In (foldl Z.min x xs) (x :: xs) /\
  Forall (fun v => foldl Z.min x xs <= v) (x :: xs).
Proof.
  revert x. induction xs as [|y ys IH]; intros x; simpl.
  - split; [by left|]. constructor; [lia|constructor].
  - destruct (IH (Z.min x y)) as [Hin Hall]. inversion Hall as [|? ? Hxy Hys]; subst.
    set (m := foldl Z.min (Z.min x y) ys) in *.
    split.
    + destruct Hin as [Hm|Hm]; [|by right; right].
      destruct (Z.min_spec x y) as [[_ E]|[_ E]]; rewrite E in Hm; rewrite <- Hm; simpl; auto.
    + constructor; [lia|]. constructor; [lia|done].
Qed.

Lemma count_nonneg (h : heap) A : wf h A -> 0 <= count A.
Proof. intros (Hr & Hc & _). unfold count. lia. Qed.

(** ** Histogram *)

Lemma length_foldl_tally (out l : list Z) :
  length (foldl tally out l) = length out.
Proof.
  revert out. induction l as [|v l IH]; intros out; simpl; [done|].
  rewrite IH. unfold tally. case_decide; [apply length_alter|done].
Qed.

Lemma lookup_foldl_tally (out l : list Z) (j : nat) (x : Z) :
  Forall (fun v => 0 <= v) l -> out !! j = Some x ->
  foldl tally out l !! j =
  Some (x + Z.of_nat (length (filter (fun v => v = Z.of_nat j) l))).
Proof.
  revert out x. induction l as [|v l IH]; intros out x Hl Hj; simpl.
  - rewrite Hj. f_equal. lia.
  - inversion Hl as [|? ? Hv Hl']; subst.
    unfold tally at 2. rewrite decide_True by done. rewrite filter_cons.
    destruct (decide (Z.to_nat v = j)) as [E|E].
    + rewrite (IH _ (1 + x)); [|done|].
      * rewrite decide_True by lia. simpl length. f_equal. lia.
      * rewrite list_lookup_alter, decide_True by done. subst j. by rewrite Hj.
    + rewrite (IH _ x); [|done|].
      * rewrite decide_False by lia. done.
      * by rewrite list_lookup_alter_ne.
Qed.

Lemma sum_alter_succ (out : list Z) (i : nat) :
  (i < length out)%nat ->
  foldr Z.add 0 (alter (Z.add 1) i out) = 1 + foldr Z.add 0 out.
Proof.
  revert i. induction out as [|x out IH]; intros i Hi; simpl in *; [lia|].
  destruct i as [|i]; cbn; [lia|]. rewrite IH; lia.
Qed.

Lemma sum_foldl_tally (out l : list Z) :
  Forall (fun v => 0 <= v < Z.of_nat (length out)) l ->
  foldr Z.add 0 (foldl tally out l) = foldr Z.add 0 out + Z.of_nat (length l).
Proof.
  revert out. induction l as [|v l IH]; intros out Hl; simpl; [lia|].
  inversion Hl as [|? ? Hv Hl']; subst.
  unfold tally at 2. rewrite decide_True by lia.
  rewrite IH.
  - rewrite sum_alter_succ by lia. lia.
  - by rewrite length_alter.
Qed.

Lemma sum_replicate_zero (k : nat) : foldr Z.add 0 (replicate k 0) = 0.
Proof. induction k as [|k IH]; simpl; [done|]. lia. Qed.

(** ** Rows of a freshly allocated matrix and of concatenated blocks *)

Lemma alloc_new (h : heap) r c vals h1 B :
  alloc h r c vals = (h1, B) -> 0 <= r -> 0 <= c ->
  length vals = Z.to_nat (r * c) ->
  wf h1 B /\ numrows B = r /\ numcols B = c /\ flatvalues h1 B = vals.
Proof.
  unfold alloc. intros [= <- <-] Hr Hc Hlen.
  unfold wf, valid, flatvalues, buffer, count; simpl. rewrite lookup_insert_eq; simpl.
  split; [split; [done|split; [done|split; [done|lia]]]|].
  split; [done|]. split; [done|]. apply take_ge. lia.
Qed.

Lemma length_concat_uniform {T} (L : list (list T)) (q : nat) :
  Forall (fun r => length r = q) L -> length (concat L) = (length L * q)%nat.
Proof. induction 1 as [|x L Hx _ IH]; simpl; [done|]. rewrite length_app. lia. Qed.

Lemma take_drop_concat {T} (L : list (list T)) (q j : nat) (r : list T) :
  Forall (fun x => length x = q) L -> L !! j = Some r ->
  take q (drop (j * q) (concat L)) = r.
Proof.
  intros HF. revert j. induction HF as [|x L Hx HF IH]; intros j Hj; [done|].
  destruct j as [|j]; simpl in *.
  - injection Hj as <-. rewrite drop_0, <- Hx. apply take_app_length.
  - replace (q + j * q)%nat with (length x + j * q)%nat by lia.
    rewrite drop_app_add. by apply IH.
Qed.

Lemma take_drop_app_le {T} (l k : list T) (m q : nat) :
  (m + q <= length l)%nat -> take q (drop m (l ++ k)) = take q (drop m l).
Proof.
  intros H. rewrite drop_app_le by lia. apply take_app_le. rewrite length_drop. lia.
Qed.

Lemma length_getrow (h : heap) A (i : nat) :
  wf h A -> (i < Z.to_nat (numrows A))%nat ->
  length (getrow h A i) = Z.to_nat (numcols A).
Proof.
  intros Hwf Hi. pose proof (length_flatvalues h A Hwf) as Hlen.
  destruct Hwf as (Hr & Hc & _).
  unfold getrow, count in *. rewrite Z2Nat.inj_mul in Hlen by lia.
  rewrite length_take, length_drop, Hlen. nia.
Qed.

End IndexMatFacts.

Module IndexMatClaims.

Import IndexMat IndexMatFacts.
Open Scope Z_scope.

(** C10: [count()] equals [countrows()*countcolumns()] for every [indexmat]
    (it is computed from the two dimensions, so every operation producing an
    indexmat keeps it); a default-constructed [indexmat] is [0 x 0], has
    [count() = 0] and no buffer. *)
Theorem count_is_rows_times_columns :
  (forall A : indexmat, count A = countrows A * countcolumns A) /\
  countrows indexmat_default = 0 /\ countcolumns indexmat_default = 0 /\
  count indexmat_default = 0 /\ myvalues indexmat_default = None.
Proof. repeat split. Qed.

(** C1: when [m*n = count()], [getresized(m, n)] is an [m x n] matrix over
    the same buffer, with the same row-major entries, and a write through it
    is a write to [A]'s buffer; [A] itself and the heap are untouched, and
    no dimension check is made: any [m], [n] are accepted. *)
Theorem getresized_shares_buffer (h : heap) (A : indexmat) (m n : Z) :
  m * n = count A ->
  countrows (getresized A m n) = m /\ countcolumns (getresized A m n) = n /\
  myvalues (getresized A m n) = myvalues A /\
  flatvalues h (getresized A m n) = flatvalues h A /\
  (forall ws, writes h (getresized A m n) ws = writes h A ws) /\
  (forall m' n', getresized A m' n' = mkindexmat m' n' (myvalues A)).
Proof.
  intros Hmn. split; [done|]. split; [done|]. split; [done|]. split.
  - unfold flatvalues, buffer. simpl. unfold count at 1. simpl. by rewrite Hmn.
  - split; [|done]. intros ws. unfold writes, setvalue. done.
Qed.

(** C9: [countpositive()] counts the entries that are positive or zero: it
    is the number of strictly positive entries plus the number of zeros. *)
Theorem countpositive_counts_nonnegative (h : heap) (A : indexmat) :
  countpositive h A =
  Z.of_nat (length (filter (fun v => 0 < v) (flatvalues h A))) +
  countoccurences h A 0.
Proof.
  unfold countpositive, countoccurences. rewrite filter_nonneg_split. lia.
Qed.

(** C6: [copy()] has [A]'s dimensions and entries in a buffer of its own:
    any sequence of writes to the copy leaves [A]'s entries unchanged, and
    any sequence of writes to [A] leaves the copy's entries unchanged. *)
Theorem copy_is_deep (h : heap) (A : indexmat) :
  valid h A ->
  let '(h1, B) := copy h A in
  countrows B = countrows A /\ countcolumns B = countcolumns A /\
  flatvalues h1 B = flatvalues h A /\ flatvalues h1 A = flatvalues h A /\
  (forall ws, flatvalues (writes h1 B ws) A = flatvalues h A) /\
  (forall ws, flatvalues (writes h1 A ws) B = flatvalues h A).
Proof.
  intros Hv.
  assert (Hne : forall q, myvalues (copy h A).2 = Some q -> myvalues A <> Some q).
  { simpl. intros q [= <-] EA. unfold valid in Hv. rewrite EA in Hv.
    by apply (fresh_ne h (fresh (dom h))). }
  assert (Hne' : forall q, myvalues A = Some q -> myvalues (copy h A).2 <> Some q).
  { intros q EA EB. by apply (Hne q). }
  assert (HB : flatvalues (copy h A).1 (copy h A).2 = flatvalues h A).
  { unfold flatvalues at 1. unfold copy. rewrite buffer_alloc_new.
    unfold flatvalues, count; simpl. rewrite take_take. f_equal. lia. }
  assert (HA : flatvalues (copy h A).1 A = flatvalues h A).
  { unfold flatvalues, copy. by rewrite buffer_alloc_old. }
  destruct (copy h A) as [h1 B] eqn:EC. simpl in *.
  assert (Hdim : numrows B = numrows A /\ numcols B = numcols A).
  { unfold copy, alloc in EC. by injection EC as _ <-. }
  split; [apply Hdim|]. split; [apply Hdim|].
  split; [done|]. split; [done|]. split.
  - intros ws. rewrite flatvalues_writes_other; [done|]. intros q Hq. by apply Hne.
  - intros ws. rewrite flatvalues_writes_other; [done|]. by apply Hne'.
Qed.

(** C3: [sum()], [max()] and [minmax()] fail with the empty-matrix
    condition exactly when [count()] is 0 (e.g. a default-constructed
    matrix); on a non-empty matrix they succeed and reduce over all the
    entries: the sum of the entries, and a maximum and a minimum that are
    entries bounding all the others. *)
Theorem reductions_fail_iff_empty (h : heap) (A : indexmat) :
  (count A = 0 ->
   sum h A = inl EmptyMatrix /\ max h A = inl EmptyMatrix /\
   minmax h A = inl EmptyMatrix) /\
  (wf h A -> count A <> 0 ->
   sum h A = inr (foldr Z.add 0 (flatvalues h A)) /\
   exists mn mx, max h A = inr mx /\ minmax h A = inr [mn; mx] /\
     In mn (flatvalues h A) /\ In mx (flatvalues h A) /\
     Forall (fun v => mn <= v <= mx) (flatvalues h A)).
Proof.
  split.
  - intros H0. unfold sum, max, minmax, errorifempty. rewrite decide_True by done.
    done.
  - intros Hwf Hne. unfold sum, max, minmax, errorifempty.
    rewrite decide_False by done. split; [done|].
    pose proof (length_flatvalues h A Hwf) as Hlen.
    pose proof (count_nonneg h A Hwf) as Hc.
    destruct (flatvalues h A) as [|x xs]; simpl in Hlen; [lia|].
    simpl. rewrite drop_0.
    destruct (foldl_max_spec x xs) as [Hinx Hallx].
    destruct (foldl_min_spec x xs) as [Hinn Halln].
    exists (foldl Z.min x xs), (foldl Z.max x xs).
    split; [done|]. split; [done|]. split; [done|]. split; [done|].
    rewrite Forall_forall in Hallx, Halln |- *. intros v Hv.
    specialize (Hallx v Hv). specialize (Halln v Hv). lia.
Qed.

(** C5: when every entry lies in [0, maxval], [countalloccurences(maxval)]
    has [maxval+1] counters, its entry [v] is [countoccurences(v)] for every
    [v] in [0, maxval], and its entries add up to [count()]. *)
Theorem countalloccurences_histogram (h : heap) (A : indexmat) (maxval : Z) :
  wf h A -> 0 <= maxval ->
  Forall (fun v => 0 <= v <= maxval) (flatvalues h A) ->
  length (countalloccurences h A maxval) = Z.to_nat (maxval + 1) /\
  (forall v, 0 <= v <= maxval ->
     countalloccurences h A maxval !! Z.to_nat v = Some (countoccurences h A v)) /\
  foldr Z.add 0 (countalloccurences h A maxval) = count A.
Proof.
  intros Hwf Hmax Hrange. unfold countalloccurences.
  split; [|split].
  - by rewrite length_foldl_tally, length_replicate.
  - intros v Hv. rewrite (lookup_foldl_tally _ _ _ 0).
    + unfold countoccurences. rewrite Z2Nat.id by lia. f_equal.
    + eapply Forall_impl; [exact Hrange|]. simpl. lia.
    + apply lookup_replicate_2. lia.
  - rewrite sum_foldl_tally.
    + rewrite sum_replicate_zero, length_flatvalues by done.
      pose proof (count_nonneg h A Hwf). lia.
    + eapply Forall_impl; [exact Hrange|]. simpl.
      rewrite length_replicate. lia.
Qed.

(** C4: for [n >= 1], [duplicateallrowstogether(n)] has [p*n] rows and row
    [r*p+i] is row [i] of [A] (the block of [p] rows repeated [n] times, so
    its first [p] rows are [A]'s rows); [duplicaterowsonebyone(n)] has [p*n]
    rows and row [i*n+k] is row [i] of [A] for every [k < n]. *)
Theorem duplicate_rows_layout (h : heap) (A : indexmat) (n : Z) :
  wf h A -> 1 <= n ->
  (let '(h1, B) := duplicateallrowstogether h A n in
   wf h1 B /\ countrows B = countrows A * n /\ countcolumns B = countcolumns A /\
   (forall r i, (r < Z.to_nat n)%nat -> (i < Z.to_nat (numrows A))%nat ->
      getrow h1 B (r * Z.to_nat (numrows A) + i) = getrow h A i) /\
   (forall i, (i < Z.to_nat (numrows A))%nat -> getrow h1 B i = getrow h A i)) /\
  (let '(h1, B) := duplicaterowsonebyone h A n in
   wf h1 B /\ countrows B = countrows A * n /\ countcolumns B = countcolumns A /\
   (forall i k, (i < Z.to_nat (numrows A))%nat -> (k < Z.to_nat n)%nat ->
      getrow h1 B (i * Z.to_nat n + k) = getrow h A i)).
Proof.
  intros Hwf Hn.
  pose proof (length_flatvalues h A Hwf) as Hlen.
  pose proof Hwf as (Hr & Hc & _).
  set (p := Z.to_nat (numrows A)). set (q := Z.to_nat (numcols A)).
  set (n' := Z.to_nat n).
  assert (Hcount : forall x, Z.to_nat (numrows A * n * numcols A) = x -> x = (p * n' * q)%nat).
  { intros x <-. rewrite !Z2Nat.inj_mul by lia. done. }
  unfold count in Hlen. rewrite Z2Nat.inj_mul in Hlen by lia. fold p q in Hlen.
  split.
  - unfold duplicateallrowstogether.
    destruct (alloc _ _ _ _) as [h1 B] eqn:E. fold n' in E.
    set (vals := flatvalues h A) in *.
    assert (Hlv : length (concat (replicate n' vals)) = (n' * (p * q))%nat).
    { rewrite (length_concat_uniform _ (p * q)), length_replicate; [done|].
      by apply Forall_replicate. }
    destruct (alloc_new _ _ _ _ _ _ E) as (Hwf1 & Hr1 & Hc1 & Hv1); [lia|lia| |].
    { rewrite Hlv. symmetry. rewrite (Hcount _ eq_refl). lia. }
    unfold countrows, countcolumns. rewrite Hr1, Hc1.
    assert (Hrow : forall r i, (r < n')%nat -> (i < p)%nat ->
              getrow h1 B (r * p + i) = getrow h A i).
    { intros r i Hrn Hi. unfold getrow. rewrite Hc1, Hv1. fold q vals.
      replace n' with (r + S (n' - S r))%nat by lia.
      rewrite replicate_add, concat_app. simpl.
      replace ((r * p + i) * q)%nat
        with (length (concat (replicate r vals)) + i * q)%nat.
      2:{ rewrite (length_concat_uniform _ (p * q)), length_replicate;
          [nia|by apply Forall_replicate]. }
      rewrite drop_app_add, take_drop_app_le; [done|nia]. }
    split; [done|]. split; [done|]. split; [done|]. split; [done|].
    intros i Hi. apply (Hrow 0%nat i); lia.
  - unfold duplicaterowsonebyone.
    destruct (alloc _ _ _ _) as [h1 B] eqn:E. fold p n' in E.
    set (blocks := (fun i => replicate n' (getrow h A i)) <$> seq 0 p) in *.
    set (LL := concat blocks) in *.
    assert (Hblocks : Forall (fun x => length x = n') blocks).
    { apply Forall_fmap, Forall_seq. intros j _. simpl. apply length_replicate. }
    assert (HLL : Forall (fun x => length x = q) LL).
    { apply Forall_concat, Forall_fmap, Forall_seq. intros j Hj. simpl.
      apply Forall_replicate. apply length_getrow; [done|]. lia. }
    assert (Hlv : length (concat LL) = (p * n' * q)%nat).
    { rewrite (length_concat_uniform _ q) by done. unfold LL.
      rewrite (length_concat_uniform _ n') by done.
      unfold blocks. by rewrite length_fmap, length_seq. }
    destruct (alloc_new _ _ _ _ _ _ E) as (Hwf1 & Hr1 & Hc1 & Hv1); [lia|lia| |].
    { rewrite Hlv. symmetry. by apply Hcount. }
    unfold countrows, countcolumns. rewrite Hr1, Hc1.
    split; [done|]. split; [done|]. split; [done|].
    intros i k Hi Hk.
    assert (Hblk : take n' (drop (i * n') LL) = replicate n' (getrow h A i)).
    { apply take_drop_concat; [done|]. unfold blocks.
      rewrite list_lookup_fmap, lookup_seq_lt by done. done. }
    assert (Hk' : LL !! (i * n' + k)%nat = Some (getrow h A i)).
    { rewrite <- lookup_drop.
      replace (drop (i * n') LL !! k) with (take n' (drop (i * n') LL) !! k).
      - rewrite Hblk. by apply lookup_replicate_2.
      - rewrite lookup_take. by rewrite decide_True. }
    unfold getrow at 1. rewrite Hc1, Hv1. fold q.
    by apply take_drop_concat.
Qed.

End IndexMatClaims.

Module SampleRuns.

Import IndexMat Samples.
Open Scope Z_scope.

Example duplicateallrowstogether_A0 :
  flatvalues (duplicateallrowstogether h0 A0 2).1 (duplicateallrowstogether h0 A0 2).2
  = [1; 2; 3; 4; 5; 6; 1; 2; 3; 4; 5; 6].
Proof. vm_compute. reflexivity. Qed.

Example duplicaterowsonebyone_A0 :
  flatvalues (duplicaterowsonebyone h0 A0 2).1 (duplicaterowsonebyone h0 A0 2).2
  = [1; 2; 3; 1; 2; 3; 4; 5; 6; 4; 5; 6].
Proof. vm_compute. reflexivity. Qed.

Example countalloccurences_A0 : countalloccurences h0 A0 6 = [0; 1; 1; 1; 1; 1; 1].
Proof. vm_compute. reflexivity. Qed.

Example countpositive_A1 : countpositive h0 A1 = 2.
Proof. vm_compute. reflexivity. Qed.

Example reductions_A1 :
  sum h0 A1 = inr 1 /\ max h0 A1 = inr 2 /\ minmax h0 A1 = inr [-1; 2] /\
  sum h0 indexmat_default = inl EmptyMatrix.
Proof. vm_compute. repeat split. Qed.

End SampleRuns.

Module Witnesses.

Import IndexMat Samples IndexMatClaims.
Open Scope Z_scope.

Lemma getresized_shares_buffer_witness :
  3 * 2 = count A0 /\
  countrows (getresized A0 3 2) = 3 /\ countcolumns (getresized A0 3 2) = 2 /\
  myvalues (getresized A0 3 2) = myvalues A0 /\
  flatvalues h0 (getresized A0 3 2) = flatvalues h0 A0 /\
  (forall ws, writes h0 (getresized A0 3 2) ws = writes h0 A0 ws) /\
  (forall m' n', getresized A0 m' n' = mkindexmat m' n' (myvalues A0)).
Proof.
  split; [reflexivity|]. apply (getresized_shares_buffer h0 A0 3 2). reflexivity.
Defined.

Ltac wf_sample :=
  unfold wf, valid; simpl;
  split; [lia|]; split; [lia|]; split; [eexists; reflexivity|vm_compute; lia].

Lemma reductions_fail_iff_empty_witness :
  (count indexmat_default = 0 /\
   sum h0 indexmat_default = inl EmptyMatrix /\
   max h0 indexmat_default = inl EmptyMatrix /\
   minmax h0 indexmat_default = inl EmptyMatrix) /\
  (wf h0 A1 /\ count A1 <> 0 /\
   sum h0 A1 = inr (foldr Z.add 0 (flatvalues h0 A1)) /\
   exists mn mx, max h0 A1 = inr mx /\ minmax h0 A1 = inr [mn; mx] /\
     In mn (flatvalues h0 A1) /\ In mx (flatvalues h0 A1) /\
     Forall (fun v => mn <= v <= mx) (flatvalues h0 A1)).
Proof.
  split.
  - split; [reflexivity|]. apply (proj1 (reductions_fail_iff_empty h0 indexmat_default)).
    reflexivity.
  - split; [wf_sample|]. split; [vm_compute; discriminate|].
    apply (proj2 (reductions_fail_iff_empty h0 A1)); [wf_sample|vm_compute; discriminate].
Defined.

Lemma duplicate_rows_layout_witness :
  wf h0 A0 /\ 1 <= 2 /\
  (let '(h1, B) := duplicateallrowstogether h0 A0 2 in
   wf h1 B /\ countrows B = countrows A0 * 2 /\ countcolumns B = countcolumns A0 /\
   (forall r i, (r < Z.to_nat 2)%nat -> (i < Z.to_nat (numrows A0))%nat ->
      getrow h1 B (r * Z.to_nat (numrows A0) + i) = getrow h0 A0 i) /\
   (forall i, (i < Z.to_nat (numrows A0))%nat -> getrow h1 B i = getrow h0 A0 i)) /\
  (let '(h1, B) := duplicaterowsonebyone h0 A0 2 in
   wf h1 B /\ countrows B = countrows A0 * 2 /\ countcolumns B = countcolumns A0 /\
   (forall i k, (i < Z.to_nat (numrows A0))%nat -> (k < Z.to_nat 2)%nat ->
      getrow h1 B (i * Z.to_nat 2 + k) = getrow h0 A0 i)).
Proof.
  split; [wf_sample|]. split; [lia|].
  apply (duplicate_rows_layout h0 A0 2); [wf_sample|lia].
Defined.

Lemma countalloccurences_histogram_witness :
  wf h0 A0 /\ 0 <= 6 /\ Forall (fun v => 0 <= v <= 6) (flatvalues h0 A0) /\
  length (countalloccurences h0 A0 6) = Z.to_nat (6 + 1) /\
  (forall v, 0 <= v <= 6 ->
     countalloccurences h0 A0 6 !! Z.to_nat v = Some (countoccurences h0 A0 v)) /\
  foldr Z.add 0 (countalloccurences h0 A0 6) = count A0.
Proof.
  split; [wf_sample|]. split; [lia|].
  assert (Hr : Forall (fun v => 0 <= v <= 6) (flatvalues h0 A0)).
  { vm_compute. repeat constructor; discriminate. }
  split; [exact Hr|].
  apply (countalloccurences_histogram h0 A0 6); [wf_sample|lia|exact Hr].
Defined.

Lemma copy_is_deep_witness :
  valid h0 A0 /\
  let '(h1, B) := copy h0 A0 in
  countrows B = countrows A0 /\ countcolumns B = countcolumns A0 /\
  flatvalues h1 B = flatvalues h0 A0 /\ flatvalues h1 A0 = flatvalues h0 A0 /\
  (forall ws, flatvalues (writes h1 B ws) A0 = flatvalues h0 A0) /\
  (forall ws, flatvalues (writes h1 A0 ws) B = flatvalues h0 A0).
Proof.
  split; [vm_compute; eexists; reflexivity|].
  apply (copy_is_deep h0 A0). vm_compute. eexists; reflexivity.
Defined.

End Witnesses.

Module ExtraFacts.

Import IndexMat IndexMatFacts.
Open Scope Z_scope.

(** ** Entries *)

Lemma lookup_concat_uniform {T} (L : list (list T)) (q j i : nat) (c : list T) :
  Forall (fun x => length x = q) L -> L !! j = Some c -> (i < q)%nat ->
  concat L !! (j * q + i)%nat = c !! i.
Proof.
  intros HF Hj Hi. rewrite <- lookup_drop.
  rewrite <- (take_drop_concat L q j c HF Hj), lookup_take.
  by rewrite decide_True.
Qed.

Lemma getentry_getrow (h : heap) A (i j : nat) :
  (j < Z.to_nat (numcols A))%nat -> getentry h A i j = getrow h A i !! j.
Proof.
  intros Hj. unfold getentry, getrow. rewrite lookup_take, decide_True by done.
  by rewrite lookup_drop.
Qed.

Lemma getentry_some (h : heap) A (i j : nat) :
  wf h A -> (i < Z.to_nat (numrows A))%nat -> (j < Z.to_nat (numcols A))%nat ->
  getentry h A i j = Some (default 0 (getentry h A i j)).
Proof.
  intros Hwf Hi Hj. pose proof (length_flatvalues h A Hwf) as Hlen.
  pose proof Hwf as (Hr & Hc & _). unfold count in Hlen.
  rewrite Z2Nat.inj_mul in Hlen by lia.
  destruct (lookup_lt_is_Some_2 (flatvalues h A) (i * Z.to_nat (numcols A) + j))
    as [x Hx]; [nia|].
  unfold getentry. by rewrite Hx.
Qed.

(** Two well-formed matrices of the same shape with the same entries have the
    same row-major values. *)
Lemma flatvalues_eq_by_entries (h1 : heap) B (h : heap) A :
  wf h1 B -> wf h A -> numrows B = numrows A -> numcols B = numcols A ->
  (forall i j, (i < Z.to_nat (numrows A))%nat -> (j < Z.to_nat (numcols A))%nat ->
     getentry h1 B i j = getentry h A i j) ->
  flatvalues h1 B = flatvalues h A.
Proof.
  intros HB HA Er Ec He.
  pose proof (length_flatvalues h1 B HB) as LB.
  pose proof (length_flatvalues h A HA) as LA.
  pose proof HA as (Hr & Hc & _).
  unfold count in LA, LB. rewrite Er, Ec in LB.
  rewrite Z2Nat.inj_mul in LA, LB by lia.
  set (p := Z.to_nat (numrows A)) in *. set (q := Z.to_nat (numcols A)) in *.
  apply list_eq. intros k.
  destruct (decide (k < p * q)%nat) as [Hk|Hk].
  - assert (Hq : q <> 0%nat) by (intros E; rewrite E in Hk; lia).
    pose proof (Nat.div_mod_eq k q) as Ek.
    pose proof (Nat.mod_upper_bound k q Hq) as Hj.
    assert (Hi : (k / q < p)%nat) by (apply Nat.Div0.div_lt_upper_bound; lia).
    specialize (He (k / q)%nat (k mod q)%nat Hi Hj).
    unfold getentry in He. rewrite Ec in He. fold q in He.
    replace k with (k / q * q + k mod q)%nat by lia. exact He.
  - rewrite !lookup_ge_None_2 by lia. done.
Qed.

Lemma alloc_keeps_others (h : heap) r c vals h1 B A :
  alloc h r c vals = (h1, B) -> valid h A -> flatvalues h1 A = flatvalues h A.
Proof.
  intros E Hv. replace h1 with (alloc h r c vals).1 by (by rewrite E).
  unfold flatvalues. by rewrite buffer_alloc_old.
Qed.

(** A buffer allocated by [alloc] is not the buffer of any matrix that was
    valid before. *)
Lemma alloc_buffer_ne (h : heap) r c vals h1 B A :
  alloc h r c vals = (h1, B) -> valid h A ->
  (forall q, myvalues B = Some q -> myvalues A <> Some q) /\
  (forall q, myvalues A = Some q -> myvalues B <> Some q).
Proof.
  unfold alloc. intros [= <- <-] Hv. simpl.
  assert (Hne : forall q, fresh (dom h) = q -> myvalues A <> Some q).
  { intros q <- EA. unfold valid in Hv. rewrite EA in Hv.
    by apply (fresh_ne h (fresh (dom h))). }
  split; [intros q [= Hq]; by apply Hne|].
  intros q EA [= Hq]. by apply (Hne q).
Qed.

(** ** Transpose *)

Lemma gettranspose_spec (h : heap) A h1 B :
  wf h A -> gettranspose h A = (h1, B) ->
  wf h1 B /\ numrows B = numcols A /\ numcols B = numrows A /\
  flatvalues h1 A = flatvalues h A /\
  (forall i j, (i < Z.to_nat (numrows A))%nat -> (j < Z.to_nat (numcols A))%nat ->
     getentry h1 B j i = getentry h A i j).
Proof.
  intros Hwf E. pose proof Hwf as (Hr & Hc & Hv & _).
  set (p := Z.to_nat (numrows A)). set (q := Z.to_nat (numcols A)).
  set (cols := (fun j => (fun i => default 0 (getentry h A i j)) <$> seq 0 p)
                 <$> seq 0 q).
  assert (HL : Forall (fun x => length x = p) cols).
  { apply Forall_fmap, Forall_seq. intros j _. simpl.
    by rewrite length_fmap, length_seq. }
  unfold gettranspose in E. fold p q cols in E.
  destruct (alloc_new _ _ _ _ _ _ E) as (HB & Er & Ec & Hv1); [lia|lia| |].
  { rewrite (length_concat_uniform _ p) by done. unfold cols.
    rewrite length_fmap, length_seq, Z2Nat.inj_mul by lia. fold p q. lia. }
  split; [done|]. split; [done|]. split; [done|]. split.
  - replace h1 with (alloc h (numcols A) (numrows A) (concat cols)).1
      by (by rewrite E).
    unfold flatvalues. by rewrite buffer_alloc_old.
  - intros i j Hi Hj. unfold getentry at 1. rewrite Hv1, Ec. fold p.
    rewrite (lookup_concat_uniform _ p j i
               ((fun i => default 0 (getentry h A i j)) <$> seq 0 p)); [| done | | done].
    + rewrite list_lookup_fmap, lookup_seq_lt by done. simpl.
      symmetry. by apply getentry_some.
    + unfold cols. by rewrite list_lookup_fmap, lookup_seq_lt.
Qed.

(** ** Filtering *)

Lemma filter_split_length (l : list Z) (v : Z) :
  length (filter (fun w => w <> v) l) =
  (length l - length (filter (fun w => w = v) l))%nat.
Proof.
  induction l as [|x l IH]; simpl; [done|]. rewrite !filter_cons.
  assert (length (filter (fun w => w = v) l) <= length l)%nat
    by apply length_filter.
  repeat case_decide; simpl; lia.
Qed.

Lemma filter_eq_filter_ne (l : list Z) (v w : Z) :
  filter (fun x => x = w) (filter (fun x => x <> v) l) =
  if decide (w = v) then [] else filter (fun x => x = w) l.
Proof.
  induction l as [|x l IH]; simpl; [by case_decide|].
  rewrite !filter_cons. repeat case_decide; subst; try congruence;
    rewrite ?filter_cons; repeat case_decide; try congruence; by rewrite IH.
Qed.

(** ** Index lists *)

Lemma length_foldl_record (out : list (list Z)) (L : list (nat * Z)) :
  length (foldl record_index out L) = length out.
Proof.
  revert out. induction L as [|iv L IH]; intros out; simpl; [done|].
  rewrite IH. unfold record_index. case_decide; [apply length_alter|done].
Qed.

Lemma lookup_foldl_record (out : list (list Z)) (L : list (nat * Z)) (j : nat)
    (l0 : list Z) :
  Forall (fun iv => 0 <= iv.2) L -> out !! j = Some l0 ->
  foldl record_index out L !! j =
  Some (l0 ++ ((fun iv => Z.of_nat iv.1) <$> filter (fun iv => iv.2 = Z.of_nat j) L)).
Proof.
  revert out l0. induction L as [|[i v] L IH]; intros out l0 HL Hj; simpl.
  - by rewrite Hj, app_nil_r.
  - inversion HL as [|? ? Hv HL']; subst. simpl in Hv.
    unfold record_index at 2. simpl. rewrite decide_True by done. rewrite filter_cons.
    destruct (decide (Z.to_nat v = j)) as [E|E].
    + rewrite (IH _ (l0 ++ [Z.of_nat i])); [|done|].
      * rewrite decide_True by (simpl; lia). simpl. by rewrite <- app_assoc.
      * rewrite list_lookup_alter, decide_True by done. subst j. by rewrite Hj.
    + rewrite (IH _ l0); [|done|].
      * rewrite decide_False by (simpl; lia). done.
      * by rewrite list_lookup_alter_ne.
Qed.

Lemma zip_seq_lookup (l : list Z) (k : nat) (iv : nat * Z) :
  zip (seq 0 (length l)) l !! k = Some iv <-> iv.1 = k /\ l !! k = Some iv.2.
Proof.
  rewrite lookup_zip_with. destruct (l !! k) as [x|] eqn:Ex.
  - pose proof (lookup_lt_Some _ _ _ Ex). rewrite lookup_seq_lt by done. simpl.
    rewrite ?Ex. simpl. destruct iv as [i w]; simpl.
    split; [intros [= -> ->]; done|intros [-> [= ->]]; done].
  - destruct (seq 0 (length l) !! k); simpl; rewrite ?Ex; simpl;
      (split; [done|intros [_ ?]; done]).
Qed.

Lemma length_filter_zip_seq (l : list Z) (s : nat) (v : Z) :
  length (filter (fun iv => iv.2 = v) (zip (seq s (length l)) l)) =
  length (filter (fun w => w = v) l).
Proof.
  revert s. induction l as [|x l IH]; intros s; simpl; [done|].
  rewrite !filter_cons. simpl. case_decide; simpl; by rewrite IH.
Qed.

Lemma Forall_zip_seq (l : list Z) (P : Z -> Prop) :
  Forall P l -> Forall (fun iv => P iv.2) (zip (seq 0 (length l)) l).
Proof.
  rewrite !Forall_lookup. intros HP k iv Hk.
  apply zip_seq_lookup in Hk as [_ Hk]. by apply (HP k).
Qed.

(** ** Occurrence counts of duplicated data *)

Lemma occ_app (P : Z -> Prop) `{!forall x, Decision (P x)} (l1 l2 : list Z) :
  length (filter P (l1 ++ l2)) = (length (filter P l1) + length (filter P l2))%nat.
Proof. by rewrite filter_app, length_app. Qed.

Lemma occ_concat_replicate (P : Z -> Prop) `{!forall x, Decision (P x)}
    (n : nat) (l : list Z) :
  length (filter P (concat (replicate n l))) = (n * length (filter P l))%nat.
Proof. induction n as [|n IH]; simpl; [done|]. rewrite occ_app, IH. lia. Qed.

Lemma occ_concat_blocks (P : Z -> Prop) `{!forall x, Decision (P x)}
    (n : nat) (g : nat -> list Z) (s : list nat) :
  length (filter P (concat (concat ((fun i => replicate n (g i)) <$> s)))) =
  (n * length (filter P (concat (g <$> s))))%nat.
Proof.
  induction s as [|i s IH]; [simpl; lia|].
  rewrite !fmap_cons. cbn [concat].
  rewrite concat_app, !occ_app, IH, occ_concat_replicate. lia.
Qed.

Lemma concat_getrow_seq (h : heap) A (p s : nat) :
  concat (getrow h A <$> seq s p) =
  take (p * Z.to_nat (numcols A)) (drop (s * Z.to_nat (numcols A)) (flatvalues h A)).
Proof.
  set (q := Z.to_nat (numcols A)). revert s.
  induction p as [|p IH]; intros s; simpl; [done|].
  rewrite IH. unfold getrow. fold q.
  rewrite <- take_take_drop, drop_drop.
  replace (s * q + q)%nat with (S s * q)%nat by lia. done.
Qed.

Lemma concat_getrows (h : heap) A :
  wf h A -> concat (getrow h A <$> seq 0 (Z.to_nat (numrows A))) = flatvalues h A.
Proof.
  intros Hwf. rewrite concat_getrow_seq. simpl. rewrite drop_0. apply take_ge.
  pose proof (length_flatvalues h A Hwf) as Hlen. pose proof Hwf as (Hr & Hc & _).
  unfold count in Hlen. rewrite Z2Nat.inj_mul in Hlen by lia. lia.
Qed.

End ExtraFacts.

Module Extras.

Import IndexMat IndexMatFacts ExtraFacts.
Open Scope Z_scope.

(** [gettranspose()] of a well-formed [p x q] matrix is a well-formed
    [q x p] matrix whose entry [(j, i)] is entry [(i, j)] of [A]; [A] keeps
    its values, the result lives in a buffer other than [A]'s, and writes
    through either matrix leave the other's values unchanged. *)
Theorem gettranspose_entries (h : heap) (A : indexmat) :
  wf h A ->
  let '(h1, B) := gettranspose h A in
  wf h1 B /\ countrows B = countcolumns A /\ countcolumns B = countrows A /\
  flatvalues h1 A = flatvalues h A /\
  (forall i j, (i < Z.to_nat (numrows A))%nat -> (j < Z.to_nat (numcols A))%nat ->
     getentry h1 B j i = getentry h A i j) /\
  myvalues B <> myvalues A /\
  (forall ws, flatvalues (writes h1 B ws) A = flatvalues h A) /\
  (forall ws, flatvalues (writes h1 A ws) B = flatvalues h1 B).
Proof.
  intros Hwf. destruct (gettranspose h A) as [h1 B] eqn:E.
  destruct (gettranspose_spec h A h1 B Hwf E) as (HB & Er & Ec & HA & He).
  pose proof Hwf as (_ & _ & Hv & _).
  destruct (alloc_buffer_ne h _ _ _ h1 B A E Hv) as [Hne1 Hne2].
  unfold countrows, countcolumns. rewrite Er, Ec.
  do 5 (split; [done|]). split.
  { unfold gettranspose, alloc in E. injection E as _ <-. simpl.
    intros EA. by apply (Hne1 (fresh (dom h))). }
  split.
  - intros ws. rewrite flatvalues_writes_other; [done|exact Hne1].
  - intros ws. by rewrite flatvalues_writes_other.
Qed.

(** Transposing twice gives back [A]'s shape and row-major values. *)
Theorem gettranspose_involutive (h : heap) (A : indexmat) :
  wf h A ->
  let '(h1, B) := gettranspose h A in
  let '(h2, C) := gettranspose h1 B in
  countrows C = countrows A /\ countcolumns C = countcolumns A /\
  flatvalues h2 C = flatvalues h A.
Proof.
  intros Hwf. destruct (gettranspose h A) as [h1 B] eqn:E1.
  destruct (gettranspose_spec h A h1 B Hwf E1) as (HB & Er1 & Ec1 & _ & He1).
  destruct (gettranspose h1 B) as [h2 C] eqn:E2.
  destruct (gettranspose_spec h1 B h2 C HB E2) as (HC & Er2 & Ec2 & _ & He2).
  unfold countrows, countcolumns. rewrite Er2, Ec2, Er1, Ec1.
  split; [done|]. split; [done|].
  apply flatvalues_eq_by_entries; [done|done|lia|lia|].
  intros i j Hi Hj. rewrite He2 by (rewrite ?Er1, ?Ec1; done). by apply He1.
Qed.

(** [duplicateallcolstogether(n)], for [n >= 0], is a well-formed
    [p x (q*n)] matrix whose entry [(i, r*q + j)] is entry [(i, j)] of [A]
    for every [r < n]: each row is [A]'s row written [n] times. *)
Theorem duplicateallcolstogether_entries (h : heap) (A : indexmat) (n : Z) :
  wf h A -> 0 <= n ->
  let '(h1, B) := duplicateallcolstogether h A n in
  wf h1 B /\ countrows B = countrows A /\ countcolumns B = countcolumns A * n /\
  flatvalues h1 A = flatvalues h A /\
  (forall i r j, (i < Z.to_nat (numrows A))%nat -> (r < Z.to_nat n)%nat ->
     (j < Z.to_nat (numcols A))%nat ->
     getentry h1 B i (r * Z.to_nat (numcols A) + j) = getentry h A i j).
Proof.
  intros Hwf Hn. pose proof Hwf as (Hr & Hc & Hv & _).
  destruct (duplicateallcolstogether h A n) as [h1 B] eqn:E.
  unfold duplicateallcolstogether in E.
  set (p := Z.to_nat (numrows A)) in *. set (q := Z.to_nat (numcols A)) in *.
  set (n' := Z.to_nat n) in *.
  set (rows := (fun i => concat (replicate n' (getrow h A i))) <$> seq 0 p) in E.
  assert (Hrow : forall i, (i < p)%nat ->
            Forall (fun x => length x = q) (replicate n' (getrow h A i))).
  { intros i Hi. apply Forall_replicate. by apply length_getrow. }
  assert (HL : Forall (fun x => length x = (n' * q)%nat) rows).
  { apply Forall_fmap, Forall_seq. intros i Hi. simpl.
    rewrite (length_concat_uniform _ q), length_replicate; [done|]. apply Hrow. lia. }
  destruct (alloc_new _ _ _ _ _ _ E) as (HB & Er & Ec & Hv1); [lia|lia| |].
  { rewrite (length_concat_uniform _ (n' * q)) by done. unfold rows.
    rewrite length_fmap, length_seq, !Z2Nat.inj_mul by lia. fold p q n'. lia. }
  unfold countrows, countcolumns. rewrite Er, Ec.
  split; [done|]. split; [done|]. split; [done|].
  split; [by eapply alloc_keeps_others|].
  intros i r j Hi Hr' Hj. unfold getentry at 1. rewrite Hv1, Ec.
  rewrite Z2Nat.inj_mul by lia. fold q n'.
  replace (q * n')%nat with (n' * q)%nat by lia.
  rewrite (lookup_concat_uniform _ (n' * q) i _ (concat (replicate n' (getrow h A i))));
    [| done | | nia].
  - rewrite (lookup_concat_uniform _ q r _ (getrow h A i)); [| apply Hrow; lia | | done].
    + symmetry. by apply getentry_getrow.
    + by apply lookup_replicate_2.
  - unfold rows. by rewrite list_lookup_fmap, lookup_seq_lt.
Qed.

(** [duplicatecolsonebyone(n)], for [n >= 0], is a well-formed [p x (q*n)]
    matrix whose entry [(i, j*n + k)] is entry [(i, j)] of [A] for every
    [k < n]: each entry is written [n] times in a row. *)
Theorem duplicatecolsonebyone_entries (h : heap) (A : indexmat) (n : Z) :
  wf h A -> 0 <= n ->
  let '(h1, B) := duplicatecolsonebyone h A n in
  wf h1 B /\ countrows B = countrows A /\ countcolumns B = countcolumns A * n /\
  flatvalues h1 A = flatvalues h A /\
  (forall i j k, (i < Z.to_nat (numrows A))%nat -> (j < Z.to_nat (numcols A))%nat ->
     (k < Z.to_nat n)%nat ->
     getentry h1 B i (j * Z.to_nat n + k) = getentry h A i j).
Proof.
  intros Hwf Hn. pose proof Hwf as (Hr & Hc & Hv & _).
  destruct (duplicatecolsonebyone h A n) as [h1 B] eqn:E.
  unfold duplicatecolsonebyone in E.
  set (p := Z.to_nat (numrows A)) in *. set (q := Z.to_nat (numcols A)) in *.
  set (n' := Z.to_nat n) in *.
  set (rows := (fun i => concat (replicate n' <$> getrow h A i)) <$> seq 0 p) in E.
  assert (Hrow : forall i, Forall (fun x => length x = n') (replicate n' <$> getrow h A i)).
  { intros i. apply Forall_fmap, Forall_forall. intros x _. apply length_replicate. }
  assert (HL : Forall (fun x => length x = (q * n')%nat) rows).
  { apply Forall_fmap, Forall_seq. intros i Hi. simpl.
    rewrite (length_concat_uniform _ n'), length_fmap by done.
    rewrite length_getrow; [done|done|lia]. }
  destruct (alloc_new _ _ _ _ _ _ E) as (HB & Er & Ec & Hv1); [lia|lia| |].
  { rewrite (length_concat_uniform _ (q * n')) by done. unfold rows.
    rewrite length_fmap, length_seq, !Z2Nat.inj_mul by lia. fold p q n'. lia. }
  unfold countrows, countcolumns. rewrite Er, Ec.
  split; [done|]. split; [done|]. split; [done|].
  split; [by eapply alloc_keeps_others|].
  intros i j k Hi Hj Hk. unfold getentry at 1. rewrite Hv1, Ec.
  rewrite Z2Nat.inj_mul by lia. fold q n'.
  pose proof (getentry_some h A i j Hwf Hi Hj) as Hx.
  rewrite (getentry_getrow h A i j Hj) in Hx |- *.
  rewrite (lookup_concat_uniform _ (q * n') i _ (concat (replicate n' <$> getrow h A i)));
    [| done | | nia].
  - rewrite (lookup_concat_uniform _ n' j _ (replicate n' (default 0 (getrow h A i !! j))));
      [| done | | done].
    + rewrite Hx. by apply lookup_replicate_2.
    + by rewrite list_lookup_fmap, Hx.
  - unfold rows. by rewrite list_lookup_fmap, lookup_seq_lt.
Qed.

(** [extractrows(selected)], with every selected index a row of [A], is a
    well-formed [|selected| x q] matrix whose row [k] is row [selected[k]] of
    [A] (order kept, repetitions allowed). *)
Theorem extractrows_rows (h : heap) (A : indexmat) (selected : list Z) :
  wf h A -> Forall (fun r => 0 <= r < numrows A) selected ->
  let '(h1, B) := extractrows h A selected in
  wf h1 B /\ countrows B = Z.of_nat (length selected) /\
  countcolumns B = countcolumns A /\ flatvalues h1 A = flatvalues h A /\
  (forall k r, selected !! k = Some r -> getrow h1 B k = getrow h A (Z.to_nat r)).
Proof.
  intros Hwf Hsel. pose proof Hwf as (Hr & Hc & Hv & _).
  destruct (extractrows h A selected) as [h1 B] eqn:E. unfold extractrows in E.
  set (q := Z.to_nat (numcols A)) in *.
  set (rows := (fun r => getrow h A (Z.to_nat r)) <$> selected) in E.
  assert (HL : Forall (fun x => length x = q) rows).
  { apply Forall_fmap. eapply Forall_impl; [exact Hsel|]. intros r Hr'. cbv beta in Hr' |- *.
    apply length_getrow; [done|lia]. }
  destruct (alloc_new _ _ _ _ _ _ E) as (HB & Er & Ec & Hv1); [lia|lia| |].
  { rewrite (length_concat_uniform _ q) by done. unfold rows.
    rewrite length_fmap, Z2Nat.inj_mul, Nat2Z.id by lia. done. }
  unfold countrows, countcolumns. rewrite Er, Ec.
  split; [done|]. split; [done|]. split; [done|].
  split; [by eapply alloc_keeps_others|].
  intros k r Hk. unfold getrow at 1. rewrite Hv1, Ec. fold q.
  apply take_drop_concat; [done|]. unfold rows. by rewrite list_lookup_fmap, Hk.
Qed.

(** Extracting all rows [0, 1, ..., p-1] in order gives a matrix with [A]'s
    shape and row-major values. *)
Theorem extractrows_all_rows (h : heap) (A : indexmat) :
  wf h A ->
  let '(h1, B) := extractrows h A (Z.of_nat <$> seq 0 (Z.to_nat (numrows A))) in
  countrows B = countrows A /\ countcolumns B = countcolumns A /\
  flatvalues h1 B = flatvalues h A.
Proof.
  intros Hwf. pose proof Hwf as (Hr & Hc & Hv & _).
  pose proof (extractrows_rows h A (Z.of_nat <$> seq 0 (Z.to_nat (numrows A))) Hwf)
    as Hx.
  destruct (extractrows h A _) as [h1 B] eqn:E.
  destruct Hx as (HB & Er & Ec & HA & Hrows).
  { apply Forall_fmap, Forall_seq. intros j Hj. simpl. lia. }
  rewrite length_fmap, length_seq, Z2Nat.id in Er by lia.
  split; [done|]. split; [done|].
  unfold countrows, countcolumns in Er, Ec.
  apply flatvalues_eq_by_entries; [done|done|done|done|].
  intros i j Hi Hj. rewrite getentry_getrow by (rewrite Ec; done).
  rewrite (Hrows i (Z.of_nat i)).
  - rewrite Nat2Z.id. symmetry. by apply getentry_getrow.
  - by rewrite list_lookup_fmap, lookup_seq_lt.
Qed.

(** [extractcols(selected)], with every selected index a column of [A], is
    a well-formed [p x |selected|] matrix whose entry [(i, k)] is entry
    [(i, selected[k])] of [A]. *)
Theorem extractcols_entries (h : heap) (A : indexmat) (selected : list Z) :
  wf h A -> Forall (fun c => 0 <= c < numcols A) selected ->
  let '(h1, B) := extractcols h A selected in
  wf h1 B /\ countrows B = countrows A /\
  countcolumns B = Z.of_nat (length selected) /\ flatvalues h1 A = flatvalues h A /\
  (forall i k c, (i < Z.to_nat (numrows A))%nat -> selected !! k = Some c ->
     getentry h1 B i k = getentry h A i (Z.to_nat c)).
Proof.
  intros Hwf Hsel. pose proof Hwf as (Hr & Hc & Hv & _).
  destruct (extractcols h A selected) as [h1 B] eqn:E. unfold extractcols in E.
  set (p := Z.to_nat (numrows A)) in *.
  set (rows := (fun i => (fun c => default 0 (getentry h A i (Z.to_nat c))) <$> selected)
                 <$> seq 0 p) in E.
  assert (HL : Forall (fun x => length x = length selected) rows).
  { apply Forall_fmap, Forall_seq. intros i _. simpl. by rewrite length_fmap. }
  destruct (alloc_new _ _ _ _ _ _ E) as (HB & Er & Ec & Hv1); [lia|lia| |].
  { rewrite (length_concat_uniform _ (length selected)) by done. unfold rows.
    rewrite length_fmap, length_seq, Z2Nat.inj_mul, Nat2Z.id by lia. done. }
  unfold countrows, countcolumns. rewrite Er, Ec.
  split; [done|]. split; [done|]. split; [done|].
  split; [by eapply alloc_keeps_others|].
  intros i k c Hi Hk. unfold getentry at 1. rewrite Hv1, Ec, Nat2Z.id.
  pose proof (lookup_lt_Some _ _ _ Hk) as Hklt.
  rewrite (lookup_concat_uniform _ (length selected) i _
             ((fun c => default 0 (getentry h A i (Z.to_nat c))) <$> selected));
    [| done | | done].
  - rewrite list_lookup_fmap, Hk. simpl. symmetry. apply getentry_some; [done|done|].
    rewrite Forall_lookup in Hsel. specialize (Hsel k c Hk). cbv beta in Hsel. lia.
  - unfold rows. by rewrite list_lookup_fmap, lookup_seq_lt.
Qed.

(** [removevalue(v)] is a column vector holding, in order, the entries of
    [A] different from [v]: it has [count() - countoccurences(v)] entries,
    no [v], and every other value as often as [A]. *)
Theorem removevalue_filters (h : heap) (A : indexmat) (v : Z) :
  wf h A ->
  let '(h1, B) := removevalue h A v in
  wf h1 B /\ countcolumns B = 1 /\ flatvalues h1 A = flatvalues h A /\
  flatvalues h1 B = filter (fun w => w <> v) (flatvalues h A) /\
  count B = count A - countoccurences h A v /\
  countoccurences h1 B v = 0 /\
  (forall w, w <> v -> countoccurences h1 B w = countoccurences h A w).
Proof.
  intros Hwf. pose proof Hwf as (Hr & Hc & Hv & _).
  destruct (removevalue h A v) as [h1 B] eqn:E. unfold removevalue in E.
  destruct (alloc_new _ _ _ _ _ _ E) as (HB & Er & Ec & Hv1); [lia|lia| |].
  { rewrite Z.mul_1_r, Nat2Z.id. done. }
  split; [done|]. split; [done|].
  split; [by eapply alloc_keeps_others|]. split; [done|].
  unfold count at 1, countoccurences. rewrite Er, Ec, Hv1.
  split; [|split].
  - rewrite Z.mul_1_r, filter_split_length, length_flatvalues by done.
    pose proof (count_nonneg h A Hwf).
    assert (length (filter (fun w => w = v) (flatvalues h A)) <= length (flatvalues h A))%nat
      by apply length_filter.
    rewrite length_flatvalues in H0 by done. lia.
  - rewrite filter_eq_filter_ne, decide_True by done. done.
  - intros w Hw. rewrite filter_eq_filter_ne, decide_False by done. done.
Qed.

(** [findalloccurences(maxval)], when every entry lies in [0, maxval],
    holds [maxval+1] lists; list [v] holds exactly the (non-negative) row-major
    indexes at which [v] appears, and its length is entry [v] of
    [countalloccurences(maxval)]. *)
Theorem findalloccurences_indexes (h : heap) (A : indexmat) (maxval : Z) :
  0 <= maxval -> Forall (fun v => 0 <= v <= maxval) (flatvalues h A) ->
  length (findalloccurences h A maxval) = Z.to_nat (maxval + 1) /\
  forall v, 0 <= v <= maxval -> exists L,
    findalloccurences h A maxval !! Z.to_nat v = Some L /\
    countalloccurences h A maxval !! Z.to_nat v = Some (Z.of_nat (length L)) /\
    Forall (fun x => 0 <= x) L /\
    (forall i : nat, Z.of_nat i ∈ L <-> flatvalues h A !! i = Some v).
Proof.
  intros Hmax Hrange. unfold findalloccurences.
  set (vals := flatvalues h A) in *.
  set (Lz := zip (seq 0 (length vals)) vals).
  assert (Hnn : Forall (fun iv => 0 <= iv.2) Lz).
  { apply (Forall_zip_seq vals (fun w => 0 <= w)).
    eapply Forall_impl; [exact Hrange|]. simpl. lia. }
  split; [by rewrite length_foldl_record, length_replicate|].
  intros v Hv.
  rewrite (lookup_foldl_record _ _ _ []); [|done|].
  2:{ apply lookup_replicate_2. lia. }
  eexists. split; [reflexivity|]. simpl. rewrite Z2Nat.id by lia.
  split; [|split].
  - unfold countalloccurences. fold vals.
    rewrite (lookup_foldl_tally _ _ _ 0).
    + rewrite length_fmap. unfold Lz. rewrite length_filter_zip_seq.
      rewrite Z2Nat.id by lia. f_equal.
    + eapply Forall_impl; [exact Hrange|]. simpl. lia.
    + apply lookup_replicate_2. lia.
  - apply Forall_fmap, Forall_forall. intros iv _. simpl. lia.
  - intros i. rewrite list_elem_of_fmap. split.
    + intros [[k w] [Ek Hin]]. simpl in Ek. apply Nat2Z.inj in Ek. subst k.
      apply list_elem_of_filter in Hin as [Hw Hin]. simpl in Hw. subst w.
      apply list_elem_of_lookup in Hin as [k Hk].
      apply zip_seq_lookup in Hk as [Ek Hk]. simpl in Ek, Hk. by subst k.
    + intros Hi. exists (i, v). split; [done|].
      apply list_elem_of_filter. split; [done|].
      apply list_elem_of_lookup. exists i. by apply zip_seq_lookup.
Qed.

(** Both row duplications by [n >= 0] multiply the number of occurrences of
    every value by [n]. *)
Theorem duplicate_rows_scale_occurrences (h : heap) (A : indexmat) (n v : Z) :
  wf h A -> 0 <= n ->
  (let '(h1, B) := duplicateallrowstogether h A n in
   countoccurences h1 B v = n * countoccurences h A v) /\
  (let '(h1, B) := duplicaterowsonebyone h A n in
   countoccurences h1 B v = n * countoccurences h A v).
Proof.
  intros Hwf Hn. pose proof (length_flatvalues h A Hwf) as Hlen.
  pose proof Hwf as (Hr & Hc & _).
  unfold count in Hlen. rewrite Z2Nat.inj_mul in Hlen by lia.
  unfold countoccurences. split.
  - unfold duplicateallrowstogether. destruct (alloc _ _ _ _) as [h1 B] eqn:E.
    destruct (alloc_new _ _ _ _ _ _ E) as (_ & _ & _ & Hv1); [lia|lia| |].
    + rewrite (length_concat_uniform _ (length (flatvalues h A))), length_replicate.
      * rewrite !Z2Nat.inj_mul by lia. lia.
      * by apply Forall_replicate.
    + rewrite Hv1, occ_concat_replicate. lia.
  - unfold duplicaterowsonebyone. destruct (alloc _ _ _ _) as [h1 B] eqn:E.
    destruct (alloc_new _ _ _ _ _ _ E) as (_ & _ & _ & Hv1); [lia|lia| |].
    + rewrite (length_concat_uniform _ (Z.to_nat (numcols A))).
      * rewrite (length_concat_uniform _ (Z.to_nat n)).
        -- rewrite length_fmap, length_seq, !Z2Nat.inj_mul by lia. lia.
        -- apply Forall_fmap, Forall_seq. intros j _. simpl. apply length_replicate.
      * apply Forall_concat, Forall_fmap, Forall_seq. intros j Hj. simpl.
        apply Forall_replicate. apply length_getrow; [done|lia].
    + rewrite Hv1, (occ_concat_blocks _ _ (getrow h A)), concat_getrows by done. lia.
Qed.

End Extras.

Module OpParameterExtras.

Import OpParameter.

(** After any sequence of [reuseit] calls, a node is present exactly when it
    was before; its [reuse] flag is the one of the last call on it (or its
    previous flag if there was none), and its row, column and rawparameter
    pointer are unchanged. *)
Theorem reuseit_seq_lookup (s : nodes) (calls : list (positive * bool))
    (a : positive) :
  reuseit_seq s calls !! a =
  (fun o => mkopparameter (lastreuse calls a (reuse o)) (myrow o) (mycolumn o)
                          (myparameter o)) <$> s !! a.
Proof.
  induction calls as [|[a' b] calls IH] using rev_ind.
  - simpl. by destruct (s !! a) as [[]|].
  - unfold reuseit_seq. rewrite foldl_app. cbn [foldl fst snd].
    fold (reuseit_seq s calls). unfold reuseit, lastreuse.
    rewrite filter_app, filter_cons, filter_nil.
    destruct (decide (a' = a)) as [<-|Hne].
    + rewrite lookup_alter_eq, IH, decide_True by done.
      rewrite last_snoc. by destruct (s !! a').
    + rewrite lookup_alter_ne, IH by done. rewrite decide_False by done.
      rewrite app_nil_r. done.
Qed.

End OpParameterExtras.

(** The extra theorems applied to the concrete inputs of [Samples]. *)
Module ExtraWitnesses.

Import IndexMat Samples OpParameter.
Open Scope Z_scope.

Ltac wf_h0 :=
  unfold wf, valid; simpl;
  split; [lia|]; split; [lia|]; split; [eexists; reflexivity|vm_compute; lia].

Ltac forall_in_range := repeat constructor; simpl; lia.

Lemma gettranspose_entries_witness :
  wf h0 A0 /\
  (let '(h1, B) := gettranspose h0 A0 in
   wf h1 B /\ countrows B = countcolumns A0 /\ countcolumns B = countrows A0 /\
   flatvalues h1 A0 = flatvalues h0 A0 /\
   (forall i j, (i < Z.to_nat (numrows A0))%nat -> (j < Z.to_nat (numcols A0))%nat ->
      getentry h1 B j i = getentry h0 A0 i j) /\
   myvalues B <> myvalues A0 /\
   (forall ws, flatvalues (writes h1 B ws) A0 = flatvalues h0 A0) /\
   (forall ws, flatvalues (writes h1 A0 ws) B = flatvalues h1 B)).
Proof.
  split; [wf_h0|]. apply (Extras.gettranspose_entries h0 A0). wf_h0.
Defined.

Lemma gettranspose_involutive_witness :
  wf h0 A0 /\
  (let '(h1, B) := gettranspose h0 A0 in
   let '(h2, C) := gettranspose h1 B in
   countrows C = countrows A0 /\ countcolumns C = countcolumns A0 /\
   flatvalues h2 C = flatvalues h0 A0).
Proof.
  split; [wf_h0|]. apply (Extras.gettranspose_involutive h0 A0). wf_h0.
Defined.

Lemma duplicateallcolstogether_entries_witness :
  wf h0 A0 /\ 0 <= 2 /\
  (let '(h1, B) := duplicateallcolstogether h0 A0 2 in
   wf h1 B /\ countrows B = countrows A0 /\ countcolumns B = countcolumns A0 * 2 /\
   flatvalues h1 A0 = flatvalues h0 A0 /\
   (forall i r j, (i < Z.to_nat (numrows A0))%nat -> (r < Z.to_nat 2)%nat ->
      (j < Z.to_nat (numcols A0))%nat ->
      getentry h1 B i (r * Z.to_nat (numcols A0) + j) = getentry h0 A0 i j)).
Proof.
  split; [wf_h0|]. split; [lia|].
  apply (Extras.duplicateallcolstogether_entries h0 A0 2); [wf_h0|lia].
Defined.

Lemma duplicatecolsonebyone_entries_witness :
  wf h0 A0 /\ 0 <= 2 /\
  (let '(h1, B) := duplicatecolsonebyone h0 A0 2 in
   wf h1 B /\ countrows B = countrows A0 /\ countcolumns B = countcolumns A0 * 2 /\
   flatvalues h1 A0 = flatvalues h0 A0 /\
   (forall i j k, (i < Z.to_nat (numrows A0))%nat -> (j < Z.to_nat (numcols A0))%nat ->
      (k < Z.to_nat 2)%nat ->
      getentry h1 B i (j * Z.to_nat 2 + k) = getentry h0 A0 i j)).
Proof.
  split; [wf_h0|]. split; [lia|].
  apply (Extras.duplicatecolsonebyone_entries h0 A0 2); [wf_h0|lia].
Defined.

Lemma extractrows_rows_witness :
  wf h0 A0 /\ Forall (fun r => 0 <= r < numrows A0) [1; 0; 1] /\
  (let '(h1, B) := extractrows h0 A0 [1; 0; 1] in
   wf h1 B /\ countrows B = Z.of_nat (length [1; 0; 1]) /\
   countcolumns B = countcolumns A0 /\ flatvalues h1 A0 = flatvalues h0 A0 /\
   (forall k r, [1; 0; 1] !! k = Some r -> getrow h1 B k = getrow h0 A0 (Z.to_nat r))).
Proof.
  split; [wf_h0|]. split; [forall_in_range|].
  apply (Extras.extractrows_rows h0 A0 [1; 0; 1]); [wf_h0|forall_in_range].
Defined.

Lemma extractrows_all_rows_witness :
  wf h0 A0 /\
  (let '(h1, B) := extractrows h0 A0 (Z.of_nat <$> seq 0 (Z.to_nat (numrows A0))) in
   countrows B = countrows A0 /\ countcolumns B = countcolumns A0 /\
   flatvalues h1 B = flatvalues h0 A0).
Proof.
  split; [wf_h0|]. apply (Extras.extractrows_all_rows h0 A0). wf_h0.
Defined.

Lemma extractcols_entries_witness :
  wf h0 A0 /\ Forall (fun c => 0 <= c < numcols A0) [2; 0] /\
  (let '(h1, B) := extractcols h0 A0 [2; 0] in
   wf h1 B /\ countrows B = countrows A0 /\
   countcolumns B = Z.of_nat (length [2; 0]) /\ flatvalues h1 A0 = flatvalues h0 A0 /\
   (forall i k c, (i < Z.to_nat (numrows A0))%nat -> [2; 0] !! k = Some c ->
      getentry h1 B i k = getentry h0 A0 i (Z.to_nat c))).
Proof.
  split; [wf_h0|]. split; [forall_in_range|].
  apply (Extras.extractcols_entries h0 A0 [2; 0]); [wf_h0|forall_in_range].
Defined.

Lemma removevalue_filters_witness :
  wf h0 A1 /\
  (let '(h1, B) := removevalue h0 A1 (-1) in
   wf h1 B /\ countcolumns B = 1 /\ flatvalues h1 A1 = flatvalues h0 A1 /\
   flatvalues h1 B = filter (fun w => w <> -1) (flatvalues h0 A1) /\
   count B = count A1 - countoccurences h0 A1 (-1) /\
   countoccurences h1 B (-1) = 0 /\
   (forall w, w <> -1 -> countoccurences h1 B w = countoccurences h0 A1 w)).
Proof.
  split; [wf_h0|]. apply (Extras.removevalue_filters h0 A1 (-1)). wf_h0.
Defined.

Lemma findalloccurences_indexes_witness :
  0 <= 6 /\ Forall (fun v => 0 <= v <= 6) (flatvalues h0 A0) /\
  length (findalloccurences h0 A0 6) = Z.to_nat (6 + 1) /\
  forall v, 0 <= v <= 6 -> exists L,
    findalloccurences h0 A0 6 !! Z.to_nat v = Some L /\
    countalloccurences h0 A0 6 !! Z.to_nat v = Some (Z.of_nat (length L)) /\
    Forall (fun x => 0 <= x) L /\
    (forall i : nat, Z.of_nat i ∈ L <-> flatvalues h0 A0 !! i = Some v).
Proof.
  split; [lia|]. split; [forall_in_range|].
  apply (Extras.findalloccurences_indexes h0 A0 6); [lia|forall_in_range].
Defined.

Lemma duplicate_rows_scale_occurrences_witness :
  wf h0 A1 /\ 0 <= 3 /\
  (let '(h1, B) := duplicateallrowstogether h0 A1 3 in
   countoccurences h1 B 2 = 3 * countoccurences h0 A1 2) /\
  (let '(h1, B) := duplicaterowsonebyone h0 A1 3 in
   countoccurences h1 B 2 = 3 * countoccurences h0 A1 2).
Proof.
  split; [wf_h0|]. split; [lia|].
  apply (Extras.duplicate_rows_scale_occurrences h0 A1 3 2); [wf_h0|lia].
Defined.

Lemma reuseit_seq_lookup_witness :
  reuseit_seq s0 [(1, false); (2, true); (1, true); (1, false)]%positive !! 1%positive =
  Some (mkopparameter false 1 2 7) /\
  reuseit_seq s0 [(1, false); (2, true); (1, true); (1, false)]%positive !! 2%positive = None.
Proof.
  split.
  - rewrite (OpParameterExtras.reuseit_seq_lookup s0). reflexivity.
  - rewrite (OpParameterExtras.reuseit_seq_lookup s0). reflexivity.
Defined.

End ExtraWitnesses.
